(** * Linear regression: a shallow embedding of [linear_regression.py]

    The class [LinearRegression] keeps its data in instance attributes and
    its weight vector in a numpy array that is shared by reference.  The
    embedding follows that: scalars are an interface (the laws of floating
    point are never used), arrays are lists with an explicit shape, the
    weight arrays live in a store of objects, and every method is a
    computation over the instance and the store that may raise. *)

From stdpp Require Import gmap list strings.
From Stdlib Require Import QArith Qreduction Lqa.

Local Open Scope nat_scope.
Local Open Scope string_scope.

(** ** Scalars *)

(** The arithmetic the source performs on array elements and Python floats.
    [of_int] is the conversion applied when a Python int meets a float. *)
Class Scalar (R : Type) := {
  szero : R;
  sone : R;
  sadd : R -> R -> R;
  ssub : R -> R -> R;
  smul : R -> R -> R;
  sdiv : R -> R -> R;
  of_int : nat -> R
}.

(** ** Exceptions and results *)

(** The Python exceptions the methods can end in.  [DanglingReference] has
    no Python counterpart: there a name always has its object; the store
    answers with it when asked for a position it does not hold. *)
Inductive exn :=
| AttributeError
| ValueError
| IndexError
| ZeroDivisionError
| UnboundLocalError
| LinAlgError
| DanglingReference.

Inductive result (A : Type) :=
| Ok (a : A)
| Raise (e : exn).
Arguments Ok {A} a.
Arguments Raise {A} e.

Definition rbind {A B} (r : result A) (k : A -> result B) : result B :=
  match r with
  | Ok a => k a
  | Raise e => Raise e
  end.

(** ** Arrays *)

Section Arrays.
Context {R : Type} `{Scalar R}.

(** A 1-D array. *)
Definition vec := list R.

(** A 2-D array: [shape = (length rows, ncols)].  The column count is kept
    so that an array without rows still has a shape. *)
Record ndarray2 := mk2 { ncols : nat; rows : list (list R) }.

Definition nrows (A : ndarray2) : nat := length (rows A).

(** What [fit] and [predict] accept for [X]: [ndim] is 1 or 2. *)
Inductive array_like :=
| Arr1 (v : vec)
| Arr2 (A : ndarray2).

(** [X.shape[0]] *)
Definition shape0 (X : array_like) : nat :=
  match X with
  | Arr1 v => length v
  | Arr2 A => nrows A
  end.

(** Every row has [ncols] entries. *)
Definition rectangular (A : ndarray2) : Prop :=
  Forall (fun r => length r = ncols A) (rows A).

(** [np.zeros(k)] *)
Definition zeros (k : nat) : vec := replicate k szero.

(** [np.ones((m, 1))] *)
Definition ones_column (m : nat) : ndarray2 := mk2 1 (replicate m [sone]).

(** [v[:, None]] *)
Definition new_axis (v : vec) : ndarray2 := mk2 1 (map (fun x => [x]) v).

(** [np.concatenate([A, B], axis=1)] *)
Definition concatenate1 (A B : ndarray2) : result ndarray2 :=
  if decide (nrows A = nrows B)
  then Ok (mk2 (ncols A + ncols B) (zip_with app (rows A) (rows B)))
  else Raise ValueError.

(** [np.sum(v)] *)
Definition vsum (v : vec) : R := foldr sadd szero v.

(** Inner product of two rows. *)
Definition dotp (u v : vec) : R := vsum (zip_with smul u v).

(** The entries of [A · v]. *)
Definition mv (A : ndarray2) (v : vec) : vec :=
  map (fun r => dotp r v) (rows A).

(** [np.dot(A, v)] and [A @ v] for 2-D [A] and 1-D [v]. *)
Definition matvec (A : ndarray2) (v : vec) : result vec :=
  if decide (ncols A = length v) then Ok (mv A v) else Raise ValueError.

(** [A.T] *)
Definition transpose (A : ndarray2) : ndarray2 :=
  mk2 (nrows A)
      (map (fun j => map (fun r => nth j r szero) (rows A)) (seq 0 (ncols A))).

(** [np.dot(A, B)] and [A @ B] for 2-D arrays. *)
Definition matmul (A B : ndarray2) : result ndarray2 :=
  if decide (ncols A = nrows B)
  then Ok (mk2 (ncols B)
             (map (fun r => map (fun c => dotp r c) (rows (transpose B)))
                  (rows A)))
  else Raise ValueError.

(** Elementwise binary operation on 1-D arrays, with numpy's broadcasting
    of a length-1 operand. *)
Definition broadcast2 (f : R -> R -> R) (a b : vec) : result vec :=
  match a, b with
  | [x], _ => Ok (map (f x) b)
  | _, [z] => Ok (map (fun x => f x z) a)
  | _, _ =>
      if decide (length a = length b)
      then Ok (zip_with f a b)
      else Raise ValueError
  end.

(** [c * v] for a scalar [c]. *)
Definition scale (c : R) (v : vec) : vec := map (smul c) v.

(** [v ** 2] *)
Definition square (v : vec) : vec := map (fun x => smul x x) v.

(** Python's [a / n] for an int [n]. *)
Definition truediv (a : R) (n : nat) : result R :=
  if decide (n = 0) then Raise ZeroDivisionError
  else Ok (sdiv a (of_int n)).

(** [v[i] = x] *)
Definition setitem_vec (v : vec) (i : nat) (x : R) : result vec :=
  if decide (i < length v) then Ok (<[i:=x]> v) else Raise IndexError.
End Arrays.

Arguments vec R : clear implicits.
Arguments ndarray2 R : clear implicits.
Arguments array_like R : clear implicits.

(** ** The instance, the object store and the method monad *)

(** References to array objects: positions in the store. *)
Abbreviation loc := nat (only parsing).

Section Store.
Context {R : Type} `{Scalar R}.

(** The attributes of [self].  Only [alpha_] exists after [__init__]; the
    others are created by [fit].  [self.w] is a reference: the array it
    names can be reached through other names too. *)
Record LinearRegression := mkLR {
  self_alpha_ : R;
  self_X : option (ndarray2 R);
  self_y : option (vec R);
  self_num_iters : option nat;
  self_lambda_ : option R;
  self_w : option loc
}.

(** [LinearRegression(alpha_)] *)
Definition init (alpha_ : R) : LinearRegression :=
  mkLR alpha_ None None None None None.

Record state := mkState {
  self : LinearRegression;
  heap : list (vec R)
}.

Definition M (A : Type) : Type := state -> result (A * state).

Definition ret {A} (a : A) : M A := fun st => Ok (a, st).

Definition bind {A B} (c : M A) (k : A -> M B) : M B :=
  fun st =>
    match c st with
    | Ok (a, st') => k a st'
    | Raise e => Raise e
    end.

Definition raise {A} (e : exn) : M A := fun _ => Raise e.

Definition lift {A} (r : result A) : M A :=
  fun st =>
    match r with
    | Ok a => Ok (a, st)
    | Raise e => Raise e
    end.

(** Reading an attribute that was never assigned raises. *)
Definition attr {A} (f : LinearRegression -> option A) : M A :=
  fun st =>
    match f (self st) with
    | Some a => Ok (a, st)
    | None => Raise AttributeError
    end.

Definition alpha : M R := fun st => Ok (self_alpha_ (self st), st).

Definition update (f : LinearRegression -> LinearRegression) : M unit :=
  fun st => Ok (tt, mkState (f (self st)) (heap st)).

Definition set_X (v : ndarray2 R) : M unit :=
  update (fun s => mkLR (self_alpha_ s) (Some v) (self_y s)
                        (self_num_iters s) (self_lambda_ s) (self_w s)).
Definition set_y (v : vec R) : M unit :=
  update (fun s => mkLR (self_alpha_ s) (self_X s) (Some v)
                        (self_num_iters s) (self_lambda_ s) (self_w s)).
Definition set_num_iters (v : nat) : M unit :=
  update (fun s => mkLR (self_alpha_ s) (self_X s) (self_y s)
                        (Some v) (self_lambda_ s) (self_w s)).
Definition set_lambda_ (v : R) : M unit :=
  update (fun s => mkLR (self_alpha_ s) (self_X s) (self_y s)
                        (self_num_iters s) (Some v) (self_w s)).
Definition set_w (v : loc) : M unit :=
  update (fun s => mkLR (self_alpha_ s) (self_X s) (self_y s)
                        (self_num_iters s) (self_lambda_ s) (Some v)).

(** A fresh array object holding [v]. *)
Definition new (v : vec R) : M loc :=
  fun st => Ok (length (heap st), mkState (self st) (heap st ++ [v])).

(** The current contents of the array named by [l]. *)
Definition deref (l : loc) : M (vec R) :=
  fun st =>
    match heap st !! l with
    | Some v => Ok (v, st)
    | None => Raise DanglingReference
    end.

(** [a[i] = x] on the array named by [l]: the object itself changes, so
    every name of it sees the new entry. *)
Definition setitem (l : loc) (i : nat) (x : R) : M unit :=
  fun st =>
    match heap st !! l with
    | Some v =>
        match setitem_vec v i x with
        | Ok v' => Ok (tt, mkState (self st) (<[l:=v']> (heap st)))
        | Raise e => Raise e
        end
    | None => Raise DanglingReference
    end.

(** [for i in l: acc = body(i, acc)] *)
Fixpoint for_each {A S} (l : list A) (body : A -> S -> M S) (acc : S) : M S :=
  match l with
  | [] => ret acc
  | i :: l' => bind (body i acc) (for_each l' body)
  end.
End Store.

Arguments LinearRegression R : clear implicits.
Arguments state R : clear implicits.
Arguments M R A : clear implicits.

Notation "x <- c ;; k" := (bind c (fun x => k))
  (at level 100, c at next level, right associativity).
Notation "c ;;; k" := (bind c (fun _ => k))
  (at level 100, right associativity).

(** ** The methods of [LinearRegression] *)

Section Methods.
Context {R : Type} `{Scalar R}.

(** [np.linalg.pinv] (numpy's, not part of this repository). *)
Variable pinv : ndarray2 R -> result (ndarray2 R).

(** The collaborator [Scorer] (module [scorer], not part of this file). *)
Variable rmse_ : vec R -> vec R -> result R.
Variable mse_ : vec R -> vec R -> result R.

(** [range(n)] *)
Definition range (n : nat) : list nat := seq 0 n.

(** *** [cost] *)
Definition cost : M R R :=
  yv <- attr self_y ;;
  let m := length yv in
  Xa <- attr self_X ;;
  wl <- attr self_w ;;
  wv <- deref wl ;;
  y_hat <- lift (matvec Xa wv) ;;
  c1 <- lift (truediv sone (2 * m)) ;;
  yv' <- attr self_y ;;
  d <- lift (broadcast2 ssub y_hat yv') ;;
  lam <- attr self_lambda_ ;;
  c2 <- lift (truediv lam (2 * m)) ;;
  wl' <- attr self_w ;;
  wv' <- deref wl' ;;
  ret (sadd (smul c1 (vsum (square d)))
            (smul c2 (vsum (square (drop 1 wv'))))).

(** *** [gradient_descent] *)

(** One pass through the body of the loop, for index [i]. *)
Definition gd_body (m : nat) (i : nat) (cpi : gmap nat R) : M R (gmap nat R) :=
  Xa <- attr self_X ;;
  wl <- attr self_w ;;
  wv <- deref wl ;;
  y_hat <- lift (matvec Xa wv) ;;
  (* w_ = self.w : a second name for the same array *)
  w_ <- attr self_w ;;
  setitem w_ 0 szero ;;;
  c <- lift (truediv sone m) ;;
  Xa' <- attr self_X ;;
  yv <- attr self_y ;;
  d <- lift (broadcast2 ssub y_hat yv) ;;
  g <- lift (matvec (transpose Xa') d) ;;
  let grad := scale c g in
  lam <- attr self_lambda_ ;;
  c2 <- lift (truediv lam m) ;;
  w_v <- deref w_ ;;
  grad <- lift (broadcast2 sadd grad (scale c2 w_v)) ;;
  wl' <- attr self_w ;;
  wv' <- deref wl' ;;
  a <- alpha ;;
  w_new <- lift (broadcast2 ssub wv' (scale a grad)) ;;
  l <- new w_new ;;
  set_w l ;;;
  if decide (i mod 10 = 0)
  then (C <- cost ;; ret (<[i:=C]> cpi))
  else ret cpi.

Definition gradient_descent : M R (gmap nat R) :=
  yv <- attr self_y ;;
  let m := length yv in
  Xa <- attr self_X ;;
  l0 <- new (zeros (ncols Xa)) ;;
  set_w l0 ;;;
  n <- attr self_num_iters ;;
  for_each (range n) (gd_body m) ∅.

(** *** [normal_eqn] *)
Definition normal_eqn : M R unit :=
  Xa <- attr self_X ;;
  l0 <- new (zeros (ncols Xa)) ;;
  set_w l0 ;;;
  Xa1 <- attr self_X ;;
  Xa2 <- attr self_X ;;
  G <- lift (matmul (transpose Xa1) Xa2) ;;
  P <- lift (pinv G) ;;
  Xa3 <- attr self_X ;;
  T <- lift (matmul P (transpose Xa3)) ;;
  yv <- attr self_y ;;
  wv <- lift (matvec T yv) ;;
  l <- new wv ;;
  set_w l.

(** *** [fit] *)

(** The dictionary [{'w': self.w, 'cpi': cpi}]. *)
Record fit_result := mkFit {
  res_w : loc;
  res_cpi : option (gmap nat R)
}.

(** [np.concatenate([np.ones((m, 1)), X], axis=1)], after the promotion
    of a 1-D [X]. *)
Definition augment (m : nat) (X : array_like R) : result (ndarray2 R) :=
  match X with
  | Arr1 v => concatenate1 (ones_column m) (new_axis v)
  | Arr2 A => concatenate1 (ones_column m) A
  end.

Definition fit (X : array_like R) (y : vec R) (num_iters : nat) (lambda_ : R)
  : M R fit_result :=
  let m := length y in
  Xa <- lift (augment m X) ;;
  set_X Xa ;;;
  set_y y ;;;
  set_num_iters num_iters ;;;
  set_lambda_ lambda_ ;;;
  Xs <- attr self_X ;;
  l0 <- new (zeros (ncols Xs)) ;;
  set_w l0 ;;;
  if decide (m < 10)
  then (normal_eqn ;;;
        wl <- attr self_w ;;
        ret (mkFit wl None))
  else (cpi <- gradient_descent ;;
        wl <- attr self_w ;;
        ret (mkFit wl (Some cpi))).

(** *** [predict] *)
Definition predict {Y} (X : array_like R) (y : Y) (score : string)
  : M R (vec R) :=
  let m := shape0 X in
  Xa <- lift (augment m X) ;;
  wl <- attr self_w ;;
  wv <- deref wl ;;
  y_hat <- lift (matvec Xa wv) ;;
  ret y_hat.

(** *** [score] *)

(** The local [score_metric] is bound only inside the two branches. *)
Definition score (y y_hat : vec R) (score : string) : M R R :=
  score_metric <-
    (if decide (score = "rmse")
     then (v <- lift (rmse_ y y_hat) ;; ret (Some v))
     else if decide (score = "mse")
     then (v <- lift (mse_ y y_hat) ;; ret (Some v))
     else ret None) ;;
  match score_metric with
  | Some v => ret v
  | None => raise UnboundLocalError
  end.
End Methods.

Arguments fit_result R : clear implicits.

(** ** What the methods compute, as plain functions

    These are the values the proofs below show the methods to produce.  They
    are stated on the contents of the arrays, without the store. *)

Section Values.
Context {R : Type} `{Scalar R}.

(** [X] with a leading column of ones. *)
Definition augmented (X : array_like R) : ndarray2 R :=
  match X with
  | Arr1 v => mk2 2 (map (fun x => [sone; x]) v)
  | Arr2 A => mk2 (1 + ncols A) (map (cons sone) (rows A))
  end.

(** The cost of the weights [wv] on the augmented data [Xa], [yv]. *)
Definition cost_value (Xa : ndarray2 R) (yv : vec R) (lam : R) (wv : vec R) : R :=
  let m := length yv in
  let y_hat := mv Xa wv in
  sadd (smul (sdiv sone (of_int (2 * m)))
             (vsum (square (zip_with ssub y_hat yv))))
       (smul (sdiv lam (of_int (2 * m)))
             (vsum (square (drop 1 wv)))).

(** The array bound to [self.w] at the end of one pass of the loop of
    [gradient_descent] that started with [self.w] holding [wv]. *)
Definition gd_next (Xa : ndarray2 R) (yv : vec R) (lam a : R) (wv : vec R)
  : vec R :=
  let m := length yv in
  let y_hat := mv Xa wv in
  let w_ := <[0:=szero]> wv in
  let grad := scale (sdiv sone (of_int m))
                    (mv (transpose Xa) (zip_with ssub y_hat yv)) in
  let grad := zip_with sadd grad (scale (sdiv lam (of_int m)) w_) in
  zip_with ssub w_ (scale a grad).

(** The weights after [k] passes, starting from [np.zeros]. *)
Definition gd_weights (Xa : ndarray2 R) (yv : vec R) (lam a : R) (k : nat)
  : vec R :=
  Nat.iter k (gd_next Xa yv lam a) (zeros (ncols Xa)).

(** The update as the specification words it: the regularisation term is
    built from a copy of [w] with entry 0 cleared, and the step is taken
    from [w] itself. *)
Definition spec_gd_next (Xa : ndarray2 R) (yv : vec R) (lam a : R) (wv : vec R)
  : vec R :=
  let m := length yv in
  let y_hat := mv Xa wv in
  let w_reg := <[0:=szero]> wv in
  let grad := zip_with sadd
                (scale (sdiv sone (of_int m))
                       (mv (transpose Xa) (zip_with ssub y_hat yv)))
                (scale (sdiv lam (of_int m)) w_reg) in
  zip_with ssub wv (scale a grad).

Definition spec_gd_weights (Xa : ndarray2 R) (yv : vec R) (lam a : R) (k : nat)
  : vec R :=
  Nat.iter k (spec_gd_next Xa yv lam a) (zeros (ncols Xa)).

(** The state one pass of the loop leaves when it started in [st] with
    [self.w] naming [l] and [l] holding [wv]: the array [l] has lost its
    entry 0, and [self.w] names a new array holding [w']. *)
Definition after_pass (st : state R) (l : loc) (wv w' : vec R) : state R :=
  mkState
    (mkLR (self_alpha_ (self st)) (self_X (self st)) (self_y (self st))
          (self_num_iters (self st)) (self_lambda_ (self st))
          (Some (length (heap st))))
    (<[l:=<[0:=szero]> wv]> (heap st) ++ [w']).

(** The dictionary after the passes [k], ..., [k + n - 1] that start from
    the weights [wv] and the dictionary [cpi]. *)
Fixpoint gd_history (Xa : ndarray2 R) (yv : vec R) (lam a : R)
    (k n : nat) (wv : vec R) (cpi : gmap nat R) : gmap nat R :=
  match n with
  | 0 => cpi
  | S n' =>
      let w' := gd_next Xa yv lam a wv in
      gd_history Xa yv lam a (S k) n' w'
        (if decide (k mod 10 = 0)
         then <[k:=cost_value Xa yv lam w']> cpi
         else cpi)
  end.

(** The closed form of [normal_eqn], with the same association as the
    source: [(pinv(Xa.T · Xa) @ Xa.T) @ y]. *)
Definition normal_weights (pinv : ndarray2 R -> result (ndarray2 R))
    (Xa : ndarray2 R) (yv : vec R) : result (vec R) :=
  rbind (matmul (transpose Xa) Xa) (fun G =>
  rbind (pinv G) (fun P =>
  rbind (matmul P (transpose Xa)) (fun T =>
  matvec T yv))).

(** The state [fit] leaves on the normal-equation path: the two arrays of
    zeros that [fit] and [normal_eqn] create first, then the solution. *)
Definition after_normal (st : state R) (Xa : ndarray2 R) (yv : vec R)
    (n : nat) (lam : R) (wv : vec R) : state R :=
  mkState
    (mkLR (self_alpha_ (self st)) (Some Xa) (Some yv) (Some n) (Some lam)
          (Some (length (heap st) + 2)))
    (heap st ++ [zeros (ncols Xa); zeros (ncols Xa); wv]).

(** The contents of the weight array a call of [fit] returned. *)
Definition learned (r : result (fit_result R * state R)) : option (vec R) :=
  match r with
  | Ok (res, st) => heap st !! res_w res
  | Raise _ => None
  end.

(** The cost history a call of [fit] returned. *)
Definition history (r : result (fit_result R * state R)) : option (gmap nat R) :=
  match r with
  | Ok (res, _) => res_cpi res
  | Raise _ => None
  end.

(** The value a computation returned, without the state. *)
Definition value {A} (r : result (A * state R)) : option A :=
  match r with
  | Ok (a, _) => Some a
  | Raise _ => None
  end.

(** The number of feature columns of [X]: a 1-D [X] is one column. *)
Definition n_features (X : array_like R) : nat :=
  match X with
  | Arr1 _ => 1
  | Arr2 A => ncols A
  end.
End Values.

(** ** Exact rational scalars, for running the methods *)

#[export] Instance Q_scalar : Scalar Q := {|
  szero := 0%Q;
  sone := 1%Q;
  sadd a b := Qred (a + b)%Q;
  ssub a b := Qred (a - b)%Q;
  smul a b := Qred (a * b)%Q;
  sdiv a b := Qred (a / b)%Q;
  of_int n := inject_Z (Z.of_nat n)
|}.

(** The sum of the squares of all entries. *)
Definition frobenius2 (A : ndarray2 Q) : Q :=
  vsum (map (fun r => vsum (square r)) (rows A)).

(** The pseudo-inverse of an array of rank at most one: the zero array has
    its transpose, any other has its transpose over [frobenius2]. *)
Definition pinv_rank1 (A : ndarray2 Q) : ndarray2 Q :=
  let f := frobenius2 A in
  if Qeq_bool f 0 then transpose A
  else mk2 (nrows A) (map (scale (sdiv sone f)) (rows (transpose A))).

(** An exact pseudo-inverse for arrays of at most two rows and two columns,
    standing for [np.linalg.pinv] in the runs below; larger arrays are
    outside its reach and show as an error. *)
Definition pinv_small (A : ndarray2 Q) : result (ndarray2 Q) :=
  match ncols A, rows A with
  | 2, [[a; b]; [c; d]] =>
      let det := ssub (smul a d) (smul b c) in
      if Qeq_bool det 0 then Ok (pinv_rank1 A)
      else Ok (mk2 2 [[sdiv d det; sdiv (ssub szero b) det];
                      [sdiv (ssub szero c) det; sdiv a det]])
  | _, _ =>
      if ((nrows A <=? 2) && (ncols A <=? 2))%nat then Ok (pinv_rank1 A)
      else Raise LinAlgError
  end.

(** A freshly constructed instance and an empty store. *)
Definition fresh (alpha_ : Q) : state Q := mkState (init alpha_) [].

(** The default learning rate of [__init__]. *)
Definition default_alpha : Q := (1 # 100)%Q.


(** The first nine examples of the scenario. *)
Definition X_nine : array_like Q :=
  Arr2 (mk2 1 (map (fun k => [inject_Z (Z.of_nat k)]) (seq 1 9))).
Definition y_nine : vec Q :=
  map (fun k => inject_Z (Z.of_nat (2 * k))) (seq 1 9).

(** Ten examples with a zero feature and target one. *)
Definition X_flat : array_like Q := Arr2 (mk2 1 (replicate 10 [0%Q])).
Definition y_flat : vec Q := replicate 10 1%Q.

(** The query [[[11]]] of the scenario. *)
Definition X_eleven : array_like Q := Arr2 (mk2 1 [[11%Q]]).

(** The state [fit] leaves on the nine examples: the closed form gives the
    weights [[0, 2]]. *)
Definition st_nine : state Q :=
  after_normal (fresh default_alpha) (augmented X_nine) y_nine 100 0%Q
    [0%Q; 2%Q].

(** Another instance whose [self.w] names an array with the same contents. *)
Definition st_other : state Q :=
  mkState (mkLR 1%Q None None None None (Some 0)) [[0%Q; 2%Q]].

(** No examples at all, with one feature column. *)
Definition X_empty : array_like Q := Arr2 (mk2 1 []).

(** One example with two features: its normal equations are 3 x 3. *)
Definition X_wide : array_like Q := Arr2 (mk2 2 [[1%Q; 2%Q]]).

(** A query with two feature columns. *)
Definition X_pair : array_like Q := Arr2 (mk2 2 [[1%Q; 2%Q]; [3%Q; 4%Q]]).

(** An instance with data but no examples, as [fit] never leaves it. *)
Definition st_no_examples : state Q :=
  mkState (mkLR default_alpha (Some (mk2 2 [])) (Some []) (Some 3)
                (Some 0%Q) (Some 0))
          [[0%Q; 0%Q]].

(** The run of [fit] on the flat data, two passes with learning rate one,
    and what it returns and leaves. *)
Definition flat_fit : result (fit_result Q * state Q) :=
  fit pinv_small X_flat y_flat 2 0%Q (fresh 1%Q).
Definition res_flat : fit_result Q :=
  match flat_fit with
  | Ok (res, _) => res
  | Raise _ => mkFit 0 None
  end.
Definition st_flat : state Q :=
  match flat_fit with
  | Ok (_, st) => st
  | Raise _ => fresh 1%Q
  end.

(** * Properties *)

(** ** Shapes of the array operations *)

Section ArrayFacts.
Context {R : Type} `{Scalar R}.
Implicit Types (A B : ndarray2 R) (u v a b : vec R).

Lemma length_zeros k : length (zeros k : vec R) = k.
Proof. apply length_replicate. Qed.

Lemma length_mv A v : length (mv A v) = nrows A.
Proof. unfold mv, nrows. apply length_map. Qed.

Lemma length_scale (c : R) v : length (scale c v) = length v.
Proof. apply length_map. Qed.

Lemma nrows_transpose A : nrows (transpose A) = ncols A.
Proof. unfold nrows, transpose; simpl. by rewrite length_map, length_seq. Qed.

Lemma ncols_transpose A : ncols (transpose A) = nrows A.
Proof. reflexivity. Qed.

Lemma nrows_ones_column m : nrows (ones_column m : ndarray2 R) = m.
Proof. apply length_replicate. Qed.

Lemma zip_with_same_length (f : R -> R -> R) a b :
  length a = length b -> length (zip_with f a b) = length a.
Proof. intros E. rewrite length_zip_with. lia. Qed.

(** Operands of the same length are combined entry by entry. *)
Lemma broadcast2_same_length (f : R -> R -> R) a b :
  length a = length b -> broadcast2 f a b = Ok (zip_with f a b).
Proof.
  intros E. unfold broadcast2.
  destruct a as [|x [|x' a]], b as [|z [|z' b]]; simpl in *; try lia;
    try reflexivity.
  rewrite decide_True by congruence. reflexivity.
Qed.

Lemma matvec_ok A v : ncols A = length v -> matvec A v = Ok (mv A v).
Proof. intros E. unfold matvec. by rewrite decide_True. Qed.

Lemma truediv_ok (x : R) n : n <> 0 -> truediv x n = Ok (sdiv x (of_int n)).
Proof. intros E. unfold truediv. by rewrite decide_False. Qed.

Lemma setitem_vec_ok v i (x : R) :
  i < length v -> setitem_vec v i x = Ok (<[i:=x]> v).
Proof. intros E. unfold setitem_vec. by rewrite decide_True. Qed.

Lemma zip_ones_rows m (l : list (list R)) :
  length l = m ->
  zip_with app (replicate m [sone]) l = map (cons sone) l.
Proof.
  intros <-. induction l as [|r l IH]; simpl; [reflexivity|].
  by rewrite IH.
Qed.

(** Prepending the column of ones succeeds exactly when [X] has [m] rows,
    and then yields [augmented X]. *)
Lemma augment_spec m (X : array_like R) :
  augment m X =
    if decide (m = shape0 X) then Ok (augmented X) else Raise ValueError.
Proof.
  destruct X as [v|A]; unfold augment, concatenate1, shape0, augmented;
    rewrite nrows_ones_column.
  - unfold nrows, new_axis; simpl. rewrite length_map.
    destruct (decide (m = length v)) as [->|]; [|reflexivity].
    rewrite zip_ones_rows by apply length_map.
    rewrite map_map. reflexivity.
  - unfold nrows. destruct (decide (m = length (rows A))) as [->|];
      [|reflexivity].
    simpl. by rewrite zip_ones_rows.
Qed.

Lemma augment_ok m X Xa :
  augment m X = Ok Xa -> m = shape0 X /\ Xa = augmented X.
Proof.
  rewrite augment_spec. destruct (decide (m = shape0 X)); [|discriminate].
  intros [= <-]. done.
Qed.

Lemma nrows_augmented X : nrows (augmented X) = shape0 X.
Proof.
  destruct X as [v|A]; unfold nrows, augmented, shape0; simpl;
    by rewrite length_map.
Qed.

Lemma ncols_augmented_pos X : 0 < ncols (augmented X).
Proof. destruct X; simpl; lia. Qed.

(** The same steps as [gd_next], from the weights; see [gd_body_run]. *)
Lemma length_gd_next Xa yv (lam al : R) wv :
  nrows Xa = length yv -> ncols Xa = length wv ->
  length (gd_next Xa yv lam al wv) = length wv.
Proof.
  intros Hr Hc. unfold gd_next.
  repeat (rewrite ?length_zip_with, ?length_scale, ?length_mv,
            ?length_insert, ?nrows_transpose).
  lia.
Qed.

Lemma length_gd_weights Xa yv (lam al : R) k :
  nrows Xa = length yv ->
  length (gd_weights Xa yv lam al k) = ncols Xa.
Proof.
  intros Hr. unfold gd_weights. induction k as [|k IH]; simpl.
  - apply length_zeros.
  - rewrite length_gd_next; auto.
Qed.
(** A rectangular array with one column is its column with a new axis. *)
Lemma one_column_new_axis A :
  rectangular A -> ncols A = 1 ->
  A = new_axis (map (fun r => nth 0 r szero) (rows A)).
Proof.
  destruct A as [c rs]. unfold rectangular, new_axis; simpl.
  intros Hrect ->. f_equal.
  induction Hrect as [|r rs Hr _ IH]; simpl; [reflexivity|].
  rewrite <- IH. destruct r as [|x [|x' r]]; simpl in *; try lia.
  reflexivity.
Qed.
End ArrayFacts.

(** ** Running the methods *)

Section MethodFacts.
Context {R : Type} `{Scalar R}.
Variable pinv : ndarray2 R -> result (ndarray2 R).
Implicit Types (st : state R) (Xa : ndarray2 R) (yv wv : vec R).

(** *** Successful runs, step by step *)

Lemma bind_ok {A B} (c : M R A) (k : A -> M R B) st r :
  bind c k st = Ok r ->
  exists a st1, c st = Ok (a, st1) /\ k a st1 = Ok r.
Proof.
  unfold bind. destruct (c st) as [[a st1]|e]; [eauto|discriminate].
Qed.

Lemma attr_ok {A} (f : LinearRegression R -> option A) st a st' :
  attr f st = Ok (a, st') -> f (self st) = Some a /\ st' = st.
Proof.
  unfold attr. destruct (f (self st)); [|discriminate].
  by intros [= -> ->].
Qed.

Lemma lift_ok {A} (r : result A) st a st' :
  lift r st = Ok (a, st') -> r = Ok a /\ st' = st.
Proof. unfold lift. destruct r; [|discriminate]. by intros [= -> ->]. Qed.

Lemma deref_ok l st v st' :
  deref l st = Ok (v, st') -> heap st !! l = Some v /\ st' = st.
Proof.
  unfold deref. destruct (heap st !! l); [|discriminate].
  by intros [= -> ->].
Qed.

Lemma ret_ok {A} (a : A) st b st' :
  ret a st = Ok (b, st') -> b = a /\ st' = st.
Proof. by intros [= -> ->]. Qed.

Lemma alpha_ok st a st' :
  alpha st = Ok (a, st') -> a = self_alpha_ (self st) /\ st' = st.
Proof. by intros [= <- <-]. Qed.

(** Splits a successful run of a sequence of steps into the runs of the
    steps, and resolves the steps that only read. *)
Ltac invert_run Hrun :=
  repeat (cbv beta zeta in Hrun;
          match type of Hrun with
          | bind _ _ _ = Ok _ =>
              let E := fresh "E" in
              apply bind_ok in Hrun as (? & ? & E & Hrun);
              first [ apply attr_ok in E as [? ->]
                    | apply lift_ok in E as [? ->]
                    | apply deref_ok in E as [? ->]
                    | apply alpha_ok in E as [? ->]
                    | idtac ]
          end).

(** *** [cost] *)

(** [cost] leaves the instance and the store as they are. *)
Lemma cost_pure st C st' : cost st = Ok (C, st') -> st' = st.
Proof.
  unfold cost. intros Hrun. invert_run Hrun.
  by apply ret_ok in Hrun as [_ ->].
Qed.

(** On data of matching shapes [cost] returns [cost_value]. *)
Lemma cost_run st Xa yv lam l wv :
  self_X (self st) = Some Xa ->
  self_y (self st) = Some yv ->
  self_lambda_ (self st) = Some lam ->
  self_w (self st) = Some l ->
  heap st !! l = Some wv ->
  ncols Xa = length wv ->
  nrows Xa = length yv ->
  length yv <> 0 ->
  cost st = Ok (cost_value Xa yv lam wv, st).
Proof.
  intros HX Hy Hlam Hw Hl Hc Hr Hm.
  destruct st as [[a oX oy on olam ow] hp]; simpl in *; subst.
  unfold cost, bind, attr, deref, lift, ret; simpl.
  repeat (first [ rewrite Hl
                | rewrite matvec_ok by done
                | rewrite truediv_ok by lia
                | rewrite broadcast2_same_length by (by rewrite length_mv) ];
          simpl).
  reflexivity.
Qed.
(** *** [gradient_descent] *)

(** One pass of the loop on data of matching shapes. *)
Lemma gd_body_run i cpi st Xa yv lam l wv :
  self_X (self st) = Some Xa ->
  self_y (self st) = Some yv ->
  self_lambda_ (self st) = Some lam ->
  self_w (self st) = Some l ->
  heap st !! l = Some wv ->
  ncols Xa = length wv ->
  nrows Xa = length yv ->
  length yv <> 0 ->
  0 < length wv ->
  let w' := gd_next Xa yv lam (self_alpha_ (self st)) wv in
  gd_body (length yv) i cpi st =
    Ok (if decide (i mod 10 = 0)
        then <[i:=cost_value Xa yv lam w']> cpi
        else cpi,
        after_pass st l wv w').
Proof.
  intros HX Hy Hlam Hw Hl Hc Hr Hm Hpos w'.
  assert (l < length (heap st)) as Hlt by (by eapply lookup_lt_Some).
  assert (length w' = length wv) as Hlen' by (by apply length_gd_next).
  unfold gd_body.
  set (tail := if decide (i mod 10 = 0) then _ else _).
  assert (tail (after_pass st l wv w') =
            Ok (if decide (i mod 10 = 0)
                then <[i:=cost_value Xa yv lam w']> cpi
                else cpi, after_pass st l wv w')) as Htail.
  { subst tail. destruct (decide (i mod 10 = 0)); [|reflexivity].
    unfold bind.
    rewrite (cost_run _ Xa yv lam (length (heap st)) w'); simpl; try done.
    - rewrite lookup_app_r by (rewrite length_insert; lia).
      rewrite length_insert, Nat.sub_diag. reflexivity.
    - congruence. }
  rewrite <- Htail. clearbody tail. clear Htail.
  destruct st as [[a oX oy on olam ow] hp]; simpl in *; subst.
  unfold after_pass, bind, attr, deref, lift, ret, setitem, new, set_w,
    update, alpha; simpl.
  repeat (first [ rewrite Hl
                | rewrite list_lookup_insert_eq by done
                | rewrite matvec_ok by done
                | rewrite truediv_ok by lia
                | rewrite setitem_vec_ok by done
                | rewrite matvec_ok
                    by (rewrite ncols_transpose, zip_with_same_length;
                        rewrite length_mv; done)
                | rewrite broadcast2_same_length by (by rewrite length_mv)
                | rewrite broadcast2_same_length
                    by (rewrite !length_scale, length_mv, length_insert,
                          nrows_transpose; done)
                | rewrite broadcast2_same_length
                    by (rewrite length_scale, zip_with_same_length;
                        rewrite !length_scale, ?length_mv, ?length_insert,
                          ?nrows_transpose; done) ];
          simpl).
  rewrite length_insert. reflexivity.
Qed.
(** The loop over [k], ..., [k + n - 1]. *)
Lemma gd_loop_run Xa yv lam n :
  forall k cpi st l wv,
  self_X (self st) = Some Xa ->
  self_y (self st) = Some yv ->
  self_lambda_ (self st) = Some lam ->
  self_w (self st) = Some l ->
  heap st !! l = Some wv ->
  ncols Xa = length wv ->
  nrows Xa = length yv ->
  length yv <> 0 ->
  0 < length wv ->
  let a := self_alpha_ (self st) in
  exists st' l',
    for_each (seq k n) (gd_body (length yv)) cpi st =
      Ok (gd_history Xa yv lam a k n wv cpi, st') /\
    self st' = mkLR a (Some Xa) (Some yv) (self_num_iters (self st))
                    (Some lam) (Some l') /\
    heap st' !! l' = Some (Nat.iter n (gd_next Xa yv lam a) wv) /\
    length (heap st') = length (heap st) + n.
Proof.
  induction n as [|n IH]; intros k cpi st l wv HX Hy Hlam Hw Hl Hc Hr Hm Hpos a.
  - exists st, l. simpl. rewrite Nat.add_0_r. split_and!; try done.
    destruct st as [[]]; simpl in *; by subst.
  - simpl seq. simpl for_each. unfold bind.
    rewrite (gd_body_run k cpi st Xa yv lam l wv) by done.
    fold a. set (w' := gd_next Xa yv lam a wv).
    assert (length w' = length wv) as Hlen' by (by apply length_gd_next).
    destruct (IH (S k)
                (if decide (k mod 10 = 0)
                 then <[k:=cost_value Xa yv lam w']> cpi else cpi)
                (after_pass st l wv w') (length (heap st)) w')
      as (st' & l' & Hrun & Hself & Hheap & Hgrow); simpl; try done;
      try congruence.
    { rewrite lookup_app_r by (rewrite length_insert; lia).
      by rewrite length_insert, Nat.sub_diag. }
    exists st', l'. split_and!.
    + exact Hrun.
    + exact Hself.
    + rewrite Hheap. f_equal. apply Nat.iter_swap.
    + rewrite Hgrow. simpl. rewrite length_app, length_insert. simpl. lia.
Qed.

(** [gradient_descent] on data of matching shapes: [n] passes from
    [np.zeros], one new array per pass. *)
Lemma gradient_descent_run st Xa yv lam n :
  self_X (self st) = Some Xa ->
  self_y (self st) = Some yv ->
  self_lambda_ (self st) = Some lam ->
  self_num_iters (self st) = Some n ->
  nrows Xa = length yv ->
  length yv <> 0 ->
  0 < ncols Xa ->
  let a := self_alpha_ (self st) in
  exists st' l',
    gradient_descent st =
      Ok (gd_history Xa yv lam a 0 n (zeros (ncols Xa)) ∅, st') /\
    self st' = mkLR a (Some Xa) (Some yv) (Some n) (Some lam) (Some l') /\
    heap st' !! l' = Some (gd_weights Xa yv lam a n) /\
    length (heap st') = length (heap st) + 1 + n.
Proof.
  intros HX Hy Hlam Hn Hr Hm Hpos a.
  destruct st as [[a' oX oy on olam ow] hp]; simpl in *; subst.
  destruct (gd_loop_run Xa yv lam n 0 ∅
              (mkState (mkLR a (Some Xa) (Some yv) (Some n) (Some lam)
                             (Some (length hp)))
                       (hp ++ [zeros (ncols Xa)]))
              (length hp) (zeros (ncols Xa)))
    as (st' & l' & Hrun & Hself & Hheap & Hgrow); simpl; try done.
  { rewrite lookup_app_r by lia. by rewrite Nat.sub_diag. }
  { by rewrite length_zeros. }
  { by rewrite length_zeros. }
  exists st', l'. split_and!; [exact Hrun | exact Hself | exact Hheap |].
  rewrite Hgrow. simpl. rewrite length_app. simpl. lia.
Qed.
(** *** [fit] *)

(** With fewer than ten examples [fit] is the closed form, and fails
    exactly where an operation of the closed form fails. *)
Lemma fit_small_run X yv n lam st :
  length yv < 10 ->
  fit pinv X yv n lam st =
    match augment (length yv) X with
    | Ok Xa =>
        match normal_weights pinv Xa yv with
        | Ok wv =>
            Ok (mkFit (length (heap st) + 2) None,
                after_normal st Xa yv n lam wv)
        | Raise e => Raise e
        end
    | Raise e => Raise e
    end.
Proof.
  intros Hm. unfold fit, bind at 1, lift at 1.
  destruct (augment (length yv) X) as [Xa|e]; [|reflexivity].
  destruct st as [s hp].
  unfold bind, set_X, set_y, set_num_iters, set_lambda_, set_w, update,
    attr, new; simpl.
  rewrite decide_True by done.
  unfold normal_eqn, normal_weights, rbind, bind, attr, new, set_w, update,
    lift; simpl.
  destruct (matmul (transpose Xa) Xa) as [G|e]; simpl; [|reflexivity].
  destruct (pinv G) as [P|e]; simpl; [|reflexivity].
  destruct (matmul P (transpose Xa)) as [T|e]; simpl; [|reflexivity].
  destruct (matvec T yv) as [wv|e]; simpl; [|reflexivity].
  unfold ret, after_normal; simpl.
  rewrite !length_app; simpl.
  rewrite <- !app_assoc; simpl.
  by replace (length hp + 1 + 1) with (length hp + 2) by lia.
Qed.

(** With ten examples or more [fit] is [n] passes of gradient descent. *)
Lemma fit_large_run X yv n lam st :
  shape0 X = length yv ->
  10 <= length yv ->
  let a := self_alpha_ (self st) in
  let Xa := augmented X in
  exists st' l',
    fit pinv X yv n lam st =
      Ok (mkFit l' (Some (gd_history Xa yv lam a 0 n (zeros (ncols Xa)) ∅)),
          st') /\
    self st' = mkLR a (Some Xa) (Some yv) (Some n) (Some lam) (Some l') /\
    heap st' !! l' = Some (gd_weights Xa yv lam a n) /\
    length (heap st') = length (heap st) + 2 + n.
Proof.
  intros Hshape Hm a Xa.
  destruct st as [s hp].
  destruct (gradient_descent_run
              (mkState (mkLR a (Some Xa) (Some yv) (Some n) (Some lam)
                             (Some (length hp)))
                       (hp ++ [zeros (ncols Xa)]))
              Xa yv lam n)
    as (st' & l' & Hrun & Hself & Hheap & Hgrow); simpl; try done.
  { subst Xa. by rewrite nrows_augmented. }
  { lia. }
  { apply ncols_augmented_pos. }
  exists st', l'. split_and!; [| exact Hself | exact Hheap |].
  - unfold fit, bind at 1, lift at 1.
    rewrite augment_spec, decide_True by done.
    unfold bind, set_X, set_y, set_num_iters, set_lambda_, set_w, update,
      attr, new; simpl.
    rewrite decide_False by lia.
    subst a Xa. cbn [self self_alpha_ heap] in Hrun.
    rewrite Hrun. simpl. rewrite Hself. reflexivity.
  - rewrite Hgrow. simpl. rewrite length_app. simpl. lia.
Qed.
(** *** [predict] *)

Lemma predict_run {Y} X (y : Y) (metric : string) st l wv :
  self_w (self st) = Some l ->
  heap st !! l = Some wv ->
  predict X y metric st = lift (matvec (augmented X) wv) st.
Proof.
  intros Hw Hl. unfold predict, bind, lift, attr, deref, ret.
  rewrite augment_spec, decide_True by done.
  rewrite Hw, Hl. by destruct (matvec (augmented X) wv).
Qed.

(** *** The cost history *)

(** Pass [j] of the loop writes key [j] when [j] is a multiple of ten, with
    the cost of the weights it has just computed; nothing else is
    written. *)
Lemma gd_history_lookup Xa yv lam (a : R) n :
  forall k wv cpi j,
  gd_history Xa yv lam a k n wv cpi !! j =
    if decide (k <= j < k + n /\ j mod 10 = 0)
    then Some (cost_value Xa yv lam
                 (Nat.iter (S (j - k)) (gd_next Xa yv lam a) wv))
    else cpi !! j.
Proof.
  induction n as [|n IH]; intros k wv cpi j.
  - simpl. rewrite decide_False by lia. reflexivity.
  - cbn [gd_history]. rewrite IH.
    destruct (decide (S k <= j < S k + n /\ j mod 10 = 0)) as [[Hj Hmod]|Hj].
    + rewrite decide_True by lia.
      replace (j - k) with (S (j - S k)) by lia.
      by rewrite <- Nat.iter_succ_r.
    + destruct (decide (j = k)) as [->|Hne].
      * destruct (decide (k mod 10 = 0)) as [Hmod|Hmod].
        -- rewrite decide_True by lia.
           rewrite lookup_insert_eq, Nat.sub_diag. reflexivity.
        -- rewrite decide_False by lia. reflexivity.
      * rewrite (decide_False (P := k <= j < k + S n /\ j mod 10 = 0))
          by lia.
        destruct (decide (k mod 10 = 0)); [|reflexivity].
        by rewrite lookup_insert_ne.
Qed.
End MethodFacts.

(** ** The behaviour of the methods *)

Section Claims.
Context {R : Type} `{Scalar R}.
Variable pinv : ndarray2 R -> result (ndarray2 R).
Variable rmse_ : vec R -> vec R -> result R.
Variable mse_ : vec R -> vec R -> result R.
Implicit Types (st : state R) (X : array_like R) (yv wv : vec R).

Lemma learned_after_normal st Xa yv n lam wv :
  heap (after_normal st Xa yv n lam wv) !! (length (heap st) + 2) = Some wv.
Proof.
  unfold after_normal; simpl.
  rewrite lookup_app_r by lia.
  by replace (length (heap st) + 2 - length (heap st)) with 2 by lia.
Qed.

(** C2: [fit] chooses by the number [m] of examples.  Below ten it is the
    closed form: the call equals the closed form on the augmented data,
    with [None] for the cost history, and the learned weights are the same
    for every [num_iters].  From ten on it returns a cost history, the
    learned weights are the result of exactly [num_iters] passes of the
    loop started from zeros, whatever the weights do on the way, and the
    store has grown by one array per pass (after the two arrays of zeros
    that [fit] and [gradient_descent] create). *)
Theorem fit_selects_algorithm X yv n lam st :
  shape0 X = length yv ->
  let a := self_alpha_ (self st) in
  let Xa := augmented X in
  (length yv < 10 ->
     fit pinv X yv n lam st =
       match normal_weights pinv Xa yv with
       | Ok wv =>
           Ok (mkFit (length (heap st) + 2) None,
               after_normal st Xa yv n lam wv)
       | Raise e => Raise e
       end /\
     forall n',
       learned (fit pinv X yv n' lam st) = learned (fit pinv X yv n lam st) /\
       history (fit pinv X yv n' lam st) = None) /\
  (10 <= length yv ->
     exists st' l' cpi,
       fit pinv X yv n lam st = Ok (mkFit l' (Some cpi), st') /\
       heap st' !! l' = Some (gd_weights Xa yv lam a n) /\
       length (heap st') = length (heap st) + 2 + n).
Proof.
  intros Hshape a Xa. split.
  - intros Hm.
    assert (forall k,
              fit pinv X yv k lam st =
                match normal_weights pinv Xa yv with
                | Ok wv =>
                    Ok (mkFit (length (heap st) + 2) None,
                        after_normal st Xa yv k lam wv)
                | Raise e => Raise e
                end) as Hfit.
    { intros k. rewrite fit_small_run by done.
      by rewrite augment_spec, decide_True. }
    split; [apply Hfit|].
    intros n'. rewrite !Hfit.
    destruct (normal_weights pinv Xa yv) as [wv|e]; [|done].
    cbn [learned history res_w res_cpi].
    by rewrite !learned_after_normal.
  - intros Hm.
    destruct (fit_large_run pinv X yv n lam st Hshape Hm)
      as (st' & l' & Hrun & _ & Hheap & Hgrow).
    eauto 10.
Qed.

(** C4: on the normal-equation path, whenever the operations of the closed
    form are defined, [fit] returns the array
    [(pinv(Xa.T · Xa) @ Xa.T) @ y] for the augmented data [Xa], stores it
    as [self.w], and returns [None] for the cost history. *)
Theorem normal_equation_weights X yv n lam st G P T wv :
  shape0 X = length yv ->
  length yv < 10 ->
  let Xa := augmented X in
  matmul (transpose Xa) Xa = Ok G ->
  pinv G = Ok P ->
  matmul P (transpose Xa) = Ok T ->
  matvec T yv = Ok wv ->
  exists res st',
    fit pinv X yv n lam st = Ok (res, st') /\
    self_X (self st') = Some Xa /\
    self_w (self st') = Some (res_w res) /\
    heap st' !! res_w res = Some wv /\
    res_cpi res = None.
Proof.
  intros Hshape Hm Xa HG HP HT Hwv.
  exists (mkFit (length (heap st) + 2) None),
    (after_normal st Xa yv n lam wv).
  split_and!; try done; [|apply learned_after_normal].
  rewrite fit_small_run, augment_spec, decide_True by done.
  unfold normal_weights. fold Xa. rewrite HG; simpl.
  rewrite HP; simpl. rewrite HT; simpl. by rewrite Hwv.
Qed.

(** C5: [cost] changes neither the instance nor the store, and on data of
    matching shapes its value is
    [(1/(2m)) * sum((y_hat - y)**2) + (lambda_/(2m)) * sum(w[1:]**2)] with
    [y_hat = Xa · w]: the penalty runs over the weights after the bias, and
    nothing but [X], [y], [w] and [lambda_] enters. *)
Theorem cost_regularized_pure st Xa yv lam l wv :
  self_X (self st) = Some Xa ->
  self_y (self st) = Some yv ->
  self_lambda_ (self st) = Some lam ->
  self_w (self st) = Some l ->
  heap st !! l = Some wv ->
  ncols Xa = length wv ->
  nrows Xa = length yv ->
  length yv <> 0 ->
  let m := length yv in
  let y_hat := mv Xa wv in
  cost st =
    Ok (sadd (smul (sdiv sone (of_int (2 * m)))
                   (vsum (square (zip_with ssub y_hat yv))))
             (smul (sdiv lam (of_int (2 * m)))
                   (vsum (square (drop 1 wv)))),
        st) /\
  forall st0 C st1, cost st0 = Ok (C, st1) -> st1 = st0.
Proof.
  intros HX Hy Hlam Hw Hl Hc Hr Hm m y_hat. split.
  - by rewrite (cost_run st Xa yv lam l wv).
  - apply cost_pure.
Qed.

(** C6: [predict] puts the column of ones in front of [X] and returns
    [Xa · w] for the array [w] that [self.w] names, or fails where that
    product fails; the instance and the store stay as they are.  After a
    call of [fit] that returned, [predict] on the training data is the
    product of the stored augmented data and the returned weights. *)
Theorem predict_is_dot {Y} X (y : Y) (metric : string) st l wv :
  self_w (self st) = Some l ->
  heap st !! l = Some wv ->
  predict X y metric st =
    match matvec (augmented X) wv with
    | Ok y_hat => Ok (y_hat, st)
    | Raise e => Raise e
    end /\
  forall Xt yt n lam st0 res,
    fit pinv Xt yt n lam st0 = Ok (res, st) ->
    res_w res = l /\
    self_X (self st) = Some (augmented Xt) /\
    predict Xt y metric st =
      match matvec (augmented Xt) wv with
      | Ok y_hat => Ok (y_hat, st)
      | Raise e => Raise e
      end.
Proof.
  intros Hw Hl. split.
  - by rewrite (predict_run X y metric st l wv).
  - intros Xt yt n lam st0 res Hfit.
    assert (res_w res = l /\ self_X (self st) = Some (augmented Xt))
      as [Hres HX].
    { destruct (decide (length yt < 10)) as [Hm|Hm].
      - rewrite fit_small_run in Hfit by done.
        destruct (augment (length yt) Xt) as [Xa|e] eqn:Haug; [|done].
        apply augment_ok in Haug as [_ ->].
        destruct (normal_weights pinv (augmented Xt) yt) as [wt|e]; [|done].
        injection Hfit as <- <-. simpl in *. split; [congruence|done].
      - assert (shape0 Xt = length yt) as Hshape.
        { unfold fit, bind at 1, lift at 1 in Hfit.
          destruct (augment (length yt) Xt) as [Xa|e] eqn:Haug; [|done].
          by apply augment_ok in Haug as [-> _]. }
        destruct (fit_large_run pinv Xt yt n lam st0 Hshape)
          as (st' & l' & Hrun & Hself & _); [lia|].
        rewrite Hrun in Hfit. injection Hfit as <- <-.
        rewrite Hself in Hw. simpl in *. rewrite Hself. simpl.
        split; [congruence|done]. }
    split_and!; [done..|].
    by rewrite (predict_run Xt y metric st l wv).
Qed.

(** C7: [score] returns what [Scorer.rmse_] returns for ["rmse"] and what
    [Scorer.mse_] returns for ["mse"].  For any other string neither branch
    runs, the local [score_metric] is never assigned, and the call ends in
    the error of reading an unassigned local: no value is returned and no
    branch of [score] raises. *)
Theorem score_dispatch (y y_hat : vec R) (metric : string) st :
  score rmse_ mse_ y y_hat metric st =
    if decide (metric = "rmse") then lift (rmse_ y y_hat) st
    else if decide (metric = "mse") then lift (mse_ y y_hat) st
    else Raise UnboundLocalError.
Proof.
  unfold score, bind, lift, ret.
  destruct (decide (metric = "rmse")); [by destruct (rmse_ y y_hat)|].
  destruct (decide (metric = "mse")); [by destruct (mse_ y y_hat)|].
  reflexivity.
Qed.

(** C8: a 1-D [X] and the rectangular one-column array with the same
    entries give the same call of [fit] and the same call of [predict]:
    the same result (or error) and the same state afterwards. *)
Theorem one_dimensional_as_column {Y} (v : vec R) (A : ndarray2 R)
    yv n lam (y : Y) (metric : string) st :
  rectangular A ->
  ncols A = 1 ->
  map (fun r => nth 0 r szero) (rows A) = v ->
  fit pinv (Arr1 v) yv n lam st = fit pinv (Arr2 A) yv n lam st /\
  predict (Arr1 v) y metric st = predict (Arr2 A) y metric st.
Proof.
  intros Hrect Hcol Hv.
  rewrite (one_column_new_axis A Hrect Hcol), Hv.
  split; [reflexivity|].
  unfold predict, shape0, nrows, new_axis; simpl.
  by rewrite length_map.
Qed.

(** C9: when gradient descent runs, the returned cost history has the key
    [i] exactly when [i < num_iters] and [i mod 10 = 0], and the value at
    [i] is the cost of the weights that pass [i] has just stored, that is
    the weights after [i + 1] passes. *)
Theorem cost_history_keys X yv n lam st :
  shape0 X = length yv ->
  10 <= length yv ->
  let a := self_alpha_ (self st) in
  let Xa := augmented X in
  exists res st' cpi,
    fit pinv X yv n lam st = Ok (res, st') /\
    res_cpi res = Some cpi /\
    forall i,
      (is_Some (cpi !! i) <-> i < n /\ i mod 10 = 0) /\
      (forall C, cpi !! i = Some C ->
                 C = cost_value Xa yv lam (gd_weights Xa yv lam a (S i))).
Proof.
  intros Hshape Hm a Xa.
  destruct (fit_large_run pinv X yv n lam st Hshape Hm)
    as (st' & l' & Hrun & _).
  eexists _, st', _. split_and!; [exact Hrun|reflexivity|].
  intros i. fold a Xa. rewrite gd_history_lookup.
  destruct (decide (0 <= i < 0 + n /\ i mod 10 = 0)) as [Hi|Hi].
  - split.
    + split; [lia|eauto].
    + intros C [= <-]. by rewrite Nat.sub_0_r.
  - rewrite lookup_empty. split; [|done].
    split; [by intros [? ?]|lia].
Qed.

(** C10: the arguments [y] and [score] of [predict] play no part: two
    calls on the same [X] return the same array whenever [self.w] names
    arrays with the same contents, whatever else the two states hold. *)
Theorem predict_ignores_y_and_score {Y1 Y2} X (y1 : Y1) (y2 : Y2)
    (s1 s2 : string) st1 st2 l1 l2 wv :
  self_w (self st1) = Some l1 -> heap st1 !! l1 = Some wv ->
  self_w (self st2) = Some l2 -> heap st2 !! l2 = Some wv ->
  value (predict X y1 s1 st1) = value (predict X y2 s2 st2) /\
  predict X y1 s1 st1 = predict X y2 s2 st1.
Proof.
  intros Hw1 Hl1 Hw2 Hl2. split; [|reflexivity].
  rewrite (predict_run X y1 s1 st1 l1 wv), (predict_run X y2 s2 st2 l2 wv)
    by done.
  unfold lift. by destruct (matvec (augmented X) wv).
Qed.
End Claims.

(** ** Errors, edge cases and what a call leaves behind *)

Section Further.
Context {R : Type} `{Scalar R}.
Variable pinv : ndarray2 R -> result (ndarray2 R).
Implicit Types (st : state R) (X : array_like R) (yv wv : vec R).

Lemma fit_ok_shape X yv n lam st r :
  fit pinv X yv n lam st = Ok r -> shape0 X = length yv.
Proof.
  unfold fit, bind at 1, lift at 1. rewrite augment_spec.
  destruct (decide (length yv = shape0 X)); [done|discriminate].
Qed.

Lemma ncols_augmented X : ncols (augmented X) = 1 + n_features X.
Proof. by destruct X. Qed.

Lemma map_const_replicate {A B} (c : B) (l : list A) :
  map (fun _ => c) l = replicate (length l) c.
Proof. induction l as [|x l IH]; simpl; [done|by rewrite IH]. Qed.

(** The product [Xa.T · Xa] is always defined. *)
Lemma gram_defined (Xa : ndarray2 R) :
  exists G, matmul (transpose Xa) Xa = Ok G.
Proof. unfold matmul. rewrite ncols_transpose, decide_True by done. eauto. Qed.

Lemma fit_rejects_row_mismatch_aux X yv n lam st :
  shape0 X <> length yv ->
  fit pinv X yv n lam st = Raise ValueError.
Proof.
  intros Hne. unfold fit, bind at 1, lift at 1.
  rewrite augment_spec, decide_False by done. reflexivity.
Qed.

Lemma learned_after_normal' st Xa yv n lam wv :
  heap (after_normal st Xa yv n lam wv) !! (length (heap st) + 2) = Some wv.
Proof.
  unfold after_normal; simpl.
  rewrite lookup_app_r by lia.
  by replace (length (heap st) + 2 - length (heap st)) with 2 by lia.
Qed.

(** X1: [fit] raises [ValueError] whenever [X] and [y] disagree on the
    number of examples, for every [num_iters], [lambda_], instance and
    [pinv]: the concatenation with the column of ones fails. *)
Theorem fit_rejects_row_mismatch X yv n lam st :
  shape0 X <> length yv ->
  fit pinv X yv n lam st = Raise ValueError.
Proof.
  apply fit_rejects_row_mismatch_aux.
Qed.

(** X2: on an instance that was only constructed, [predict], [cost],
    [gradient_descent] and [normal_eqn] raise [AttributeError], whatever
    the store holds and whatever is passed to [predict]. *)
Theorem unfitted_instance_raises {Y} (a : R) (hp : list (vec R)) X (y : Y)
    (metric : string) :
  let st := mkState (init a) hp in
  predict X y metric st = Raise AttributeError /\
  cost st = Raise AttributeError /\
  gradient_descent st = Raise AttributeError /\
  normal_eqn pinv st = Raise AttributeError.
Proof.
  intros st. split_and!; try reflexivity.
  unfold predict, bind, lift. by rewrite augment_spec, decide_True.
Qed.

(** X3: with data that hold no example, [cost] raises
    [ZeroDivisionError] at [1/(2*m)], and so does the first pass of
    [gradient_descent] at [1/m]. *)
Theorem no_examples_divide_by_zero st Xa lam l wv k :
  self_X (self st) = Some Xa ->
  self_y (self st) = Some [] ->
  self_lambda_ (self st) = Some lam ->
  self_w (self st) = Some l ->
  heap st !! l = Some wv ->
  ncols Xa = length wv ->
  0 < ncols Xa ->
  self_num_iters (self st) = Some (S k) ->
  cost st = Raise ZeroDivisionError /\
  gradient_descent st = Raise ZeroDivisionError.
Proof.
  intros HX Hy Hlam Hw Hl Hc Hpos Hn.
  destruct st as [[a oX oy on olam ow] hp]; simpl in *; subst. split.
  - unfold cost, bind, attr, deref, lift; simpl.
    rewrite Hl; simpl. by rewrite matvec_ok.
  - unfold gradient_descent, bind, attr, new, set_w, update; simpl.
    unfold bind. unfold gd_body, bind, attr, deref, lift, setitem; simpl.
    rewrite lookup_app_r by lia. rewrite Nat.sub_diag; simpl.
    rewrite matvec_ok by (by rewrite length_zeros); simpl.
    rewrite lookup_app_r by lia. rewrite Nat.sub_diag; simpl.
    rewrite setitem_vec_ok by (by rewrite length_zeros). reflexivity.
Qed.
(** X4: [fit] on data without examples takes the closed form and returns
    weights that are all zero (as many as the pseudo-inverse has rows), with
    no cost history: nothing is divided by the number of examples. *)
Theorem fit_without_examples X n lam st G P :
  shape0 X = 0 ->
  matmul (transpose (augmented X)) (augmented X) = Ok G ->
  pinv G = Ok P ->
  ncols P = ncols (augmented X) ->
  exists res st',
    fit pinv X [] n lam st = Ok (res, st') /\
    heap st' !! res_w res = Some (zeros (nrows P)) /\
    res_cpi res = None.
Proof.
  intros Hshape HG HP Hcols.
  assert (rows (augmented X) = []) as Hrows.
  { apply nil_length_inv. by rewrite <- Hshape, <- nrows_augmented. }
  exists (mkFit (length (heap st) + 2) None),
    (after_normal st (augmented X) [] n lam (zeros (nrows P))).
  split_and!; [|apply learned_after_normal'|done].
  rewrite fit_small_run by (simpl; lia).
  rewrite augment_spec, decide_True by done.
  unfold normal_weights. rewrite HG; simpl. rewrite HP; simpl.
  unfold matmul. rewrite nrows_transpose, decide_True by done. simpl.
  unfold matvec; simpl.
  replace (nrows (augmented X)) with 0 by (by rewrite nrows_augmented).
  simpl. unfold mv; simpl. rewrite map_map; simpl.
  by rewrite map_const_replicate.
Qed.

(** X5: with ten examples or more and [num_iters = 0] the loop does not
    run: [fit] returns the zero vector with one entry per feature and one
    for the bias, and an empty cost history. *)
Theorem fit_without_iterations X yv lam st :
  shape0 X = length yv ->
  10 <= length yv ->
  exists res st',
    fit pinv X yv 0 lam st = Ok (res, st') /\
    heap st' !! res_w res = Some (zeros (1 + n_features X)) /\
    res_cpi res = Some ∅.
Proof.
  intros Hshape Hm.
  destruct (fit_large_run pinv X yv 0 lam st Hshape Hm)
    as (st' & l' & Hrun & _ & Hheap & _).
  eexists _, st'. split_and!; [exact Hrun| |reflexivity].
  by rewrite <- ncols_augmented.
Qed.

(** X6: a call of [fit] starts afresh: the weights it learns and the cost
    history it returns are the same on any two instances with the same
    learning rate, whatever earlier calls have left in them. *)
Theorem fit_forgets_earlier_calls X yv n lam st1 st2 :
  self_alpha_ (self st1) = self_alpha_ (self st2) ->
  learned (fit pinv X yv n lam st1) = learned (fit pinv X yv n lam st2) /\
  history (fit pinv X yv n lam st1) = history (fit pinv X yv n lam st2).
Proof.
  intros Ha.
  destruct (decide (shape0 X = length yv)) as [Hshape|Hshape].
  - destruct (decide (length yv < 10)) as [Hm|Hm].
    + rewrite !fit_small_run, augment_spec, decide_True by done.
      destruct (normal_weights pinv (augmented X) yv) as [wv|e]; [|done].
      cbn [learned history res_w res_cpi].
      by rewrite !learned_after_normal'.
    + destruct (fit_large_run pinv X yv n lam st1 Hshape)
        as (st1' & l1 & -> & _ & Hheap1 & _); [lia|].
      destruct (fit_large_run pinv X yv n lam st2 Hshape)
        as (st2' & l2 & -> & _ & Hheap2 & _); [lia|].
      cbn [learned history res_w res_cpi].
      by rewrite Hheap1, Hheap2, Ha.
  - by rewrite !fit_rejects_row_mismatch_aux.
Qed.
(** The loop writes only into arrays at or after position [base], as long
    as [self.w] starts there. *)
Lemma gd_loop_frame Xa yv lam base n :
  forall k cpi st l wv,
  self_X (self st) = Some Xa ->
  self_y (self st) = Some yv ->
  self_lambda_ (self st) = Some lam ->
  self_w (self st) = Some l ->
  heap st !! l = Some wv ->
  ncols Xa = length wv ->
  nrows Xa = length yv ->
  length yv <> 0 ->
  0 < length wv ->
  base <= l ->
  forall cpi' st',
    for_each (seq k n) (gd_body (length yv)) cpi st = Ok (cpi', st') ->
    (exists l', self_w (self st') = Some l' /\ base <= l') /\
    forall j, j < base -> heap st' !! j = heap st !! j.
Proof.
  induction n as [|n IH];
    intros k cpi st l wv HX Hy Hlam Hw Hl Hc Hr Hm Hpos Hbase cpi' st' Hrun.
  - simpl in Hrun. injection Hrun as _ <-. eauto.
  - simpl seq in Hrun. simpl for_each in Hrun. unfold bind in Hrun.
    rewrite (gd_body_run k cpi st Xa yv lam l wv) in Hrun by done.
    assert (l < length (heap st)) as Hlt by (by eapply lookup_lt_Some).
    set (w' := gd_next Xa yv lam (self_alpha_ (self st)) wv) in Hrun.
    assert (length w' = length wv) as Hlen' by (by apply length_gd_next).
    eapply (IH _ _ _ (length (heap st)) w') in Hrun as [Hl' Hframe];
      simpl; try done; try congruence; try lia.
    + split; [done|]. intros j Hj. rewrite Hframe by done. simpl.
      rewrite lookup_app_l by (rewrite length_insert; lia).
      apply list_lookup_insert_ne. lia.
    + rewrite lookup_app_r by (rewrite length_insert; lia).
      by rewrite length_insert, Nat.sub_diag.
Qed.

(** The state in which [fit] hands over to [gradient_descent]. *)
Lemma fit_large_unfold X yv n lam st :
  shape0 X = length yv ->
  10 <= length yv ->
  fit pinv X yv n lam st =
    bind gradient_descent
      (fun cpi => bind (attr self_w) (fun wl => ret (mkFit wl (Some cpi))))
      (mkState (mkLR (self_alpha_ (self st)) (Some (augmented X)) (Some yv)
                     (Some n) (Some lam) (Some (length (heap st))))
               (heap st ++ [zeros (ncols (augmented X))])).
Proof.
  intros Hshape Hm. destruct st as [s hp].
  unfold fit, bind at 1, lift at 1.
  rewrite augment_spec, decide_True by done.
  unfold bind at 1 2 3 4 5 6 7, set_X, set_y, set_num_iters, set_lambda_,
    set_w, update, attr at 1, new; simpl.
  rewrite decide_False by lia. reflexivity.
Qed.

Lemma gradient_descent_frame st Xa yv lam n cpi st' :
  self_X (self st) = Some Xa ->
  self_y (self st) = Some yv ->
  self_lambda_ (self st) = Some lam ->
  self_num_iters (self st) = Some n ->
  nrows Xa = length yv ->
  length yv <> 0 ->
  0 < ncols Xa ->
  gradient_descent st = Ok (cpi, st') ->
  (exists l', self_w (self st') = Some l' /\ length (heap st) <= l') /\
  forall j, j < length (heap st) -> heap st' !! j = heap st !! j.
Proof.
  intros HX Hy Hlam Hn Hr Hm Hpos Hgd.
  destruct st as [[a oX oy on olam ow] hp]; simpl in *; subst.
  assert (for_each (seq 0 n) (gd_body (length yv)) ∅
            (mkState (mkLR a (Some Xa) (Some yv) (Some n) (Some lam)
                           (Some (length hp)))
                     (hp ++ [zeros (ncols Xa)]))
          = Ok (cpi, st')) as Hloop by exact Hgd.
  destruct (gd_loop_frame Xa yv lam (length hp) n 0 ∅
              (mkState (mkLR a (Some Xa) (Some yv) (Some n) (Some lam)
                             (Some (length hp)))
                       (hp ++ [zeros (ncols Xa)]))
              (length hp) (zeros (ncols Xa))) with (cpi' := cpi) (st' := st')
    as [Hl' Hframe]; simpl; try done.
  - rewrite lookup_app_r by lia. by rewrite Nat.sub_diag.
  - by rewrite length_zeros.
  - by rewrite length_zeros.
  - split; [done|]. intros j Hj. rewrite Hframe by done. simpl.
    by rewrite lookup_app_l.
Qed.

(** X7: a call of [fit] that returns has written into no array that
    existed before the call, and the array it returns is a new one: the
    weights an earlier call returned keep their values. *)
Theorem fit_keeps_existing_arrays X yv n lam st res st' :
  fit pinv X yv n lam st = Ok (res, st') ->
  length (heap st) <= res_w res /\
  forall j, j < length (heap st) -> heap st' !! j = heap st !! j.
Proof.
  intros Hfit. pose proof (fit_ok_shape _ _ _ _ _ _ Hfit) as Hshape.
  destruct (decide (length yv < 10)) as [Hm|Hm].
  - rewrite fit_small_run, augment_spec, decide_True in Hfit by done.
    destruct (normal_weights pinv (augmented X) yv) as [wv|e]; [|done].
    injection Hfit as <- <-. simpl. split; [lia|].
    intros j Hj. by rewrite lookup_app_l.
  - rewrite fit_large_unfold in Hfit by (done || lia).
    unfold bind at 1 in Hfit.
    destruct (gradient_descent _) as [[cpi st2]|e] eqn:Hgd; [|done].
    apply (gradient_descent_frame _ (augmented X) yv lam n) in Hgd
      as [(l' & Hl' & Hge) Hframe]; simpl; try done; try lia.
    + unfold bind, attr, ret in Hfit. rewrite Hl' in Hfit.
      injection Hfit as <- <-. simpl in *.
      rewrite length_app in Hge. simpl in Hge. split; [lia|].
      intros j Hj. rewrite Hframe by (rewrite length_app; lia).
      by rewrite lookup_app_l.
    + by rewrite nrows_augmented.
    + apply ncols_augmented_pos.
Qed.

(** X8: after a call of [fit] that returns, the instance holds the
    augmented [X], [y], [num_iters] and [lambda_] as passed and the learning
    rate it had; [self.w] and the returned ['w'] name the same array, and
    that array is in the store. *)
Theorem fit_stores_arguments X yv n lam st res st' :
  fit pinv X yv n lam st = Ok (res, st') ->
  self st' = mkLR (self_alpha_ (self st)) (Some (augmented X)) (Some yv)
                  (Some n) (Some lam) (Some (res_w res)) /\
  is_Some (heap st' !! res_w res).
Proof.
  intros Hfit. pose proof (fit_ok_shape _ _ _ _ _ _ Hfit) as Hshape.
  destruct (decide (length yv < 10)) as [Hm|Hm].
  - rewrite fit_small_run, augment_spec, decide_True in Hfit by done.
    destruct (normal_weights pinv (augmented X) yv) as [wv|e]; [|done].
    injection Hfit as <- <-. split; [reflexivity|].
    cbn [res_w]. rewrite learned_after_normal'. eauto.
  - destruct (fit_large_run pinv X yv n lam st Hshape)
      as (st1 & l1 & Hrun & Hself & Hheap & _); [lia|].
    rewrite Hrun in Hfit. injection Hfit as <- <-.
    split; [exact Hself|]. simpl. rewrite Hheap. eauto.
Qed.

(** X9: after [fit] has run gradient descent, [predict] accepts exactly
    the inputs with as many feature columns as the training data: for
    those it returns one prediction per row, for any other it raises
    [ValueError]. *)
Theorem predict_after_fit {Y} X yv n lam st res st' X' (y : Y)
    (metric : string) :
  fit pinv X yv n lam st = Ok (res, st') ->
  10 <= length yv ->
  (n_features X' = n_features X ->
     exists y_hat,
       predict X' y metric st' = Ok (y_hat, st') /\
       length y_hat = shape0 X') /\
  (n_features X' <> n_features X ->
     predict X' y metric st' = Raise ValueError).
Proof.
  intros Hfit Hm. pose proof (fit_ok_shape _ _ _ _ _ _ Hfit) as Hshape.
  destruct (fit_large_run pinv X yv n lam st Hshape Hm)
    as (st1 & l1 & Hrun & Hself & Hheap & _).
  rewrite Hrun in Hfit. injection Hfit as <- <-.
  set (wv := gd_weights (augmented X) yv lam (self_alpha_ (self st)) n)
    in Hheap.
  assert (length wv = 1 + n_features X) as Hlen.
  { unfold wv. rewrite length_gd_weights by (by rewrite nrows_augmented).
    apply ncols_augmented. }
  assert (predict X' y metric st1 = lift (matvec (augmented X') wv) st1)
    as ->.
  { apply (predict_run X' y metric st1 l1 wv); [by rewrite Hself|done]. }
  unfold lift, matvec. rewrite ncols_augmented, Hlen. split; intros Hf.
  - rewrite decide_True by lia. eexists. split; [reflexivity|].
    by rewrite length_mv, nrows_augmented.
  - by rewrite decide_False by lia.
Qed.

(** X10: with ten examples or more [fit] never reaches [np.linalg.pinv]:
    the whole call, result and state, is the same under any implementation
    of it. *)
Theorem gradient_path_ignores_pinv
    (pinv' : ndarray2 R -> result (ndarray2 R)) X yv n lam st :
  10 <= length yv ->
  fit pinv X yv n lam st = fit pinv' X yv n lam st.
Proof.
  intros Hm. destruct (decide (shape0 X = length yv)) as [Hshape|Hshape].
  - unfold fit, bind at 1 3, lift at 1 2.
    rewrite augment_spec, decide_True by done.
    unfold bind at 1 2 3 4 5 6 7, set_X, set_y, set_num_iters, set_lambda_,
      set_w, update, attr at 1, new; simpl.
    unfold bind at 8 9 10 11 12 13 14, attr at 4; simpl.
    by rewrite !decide_False by lia.
  - unfold fit, bind at 1 3, lift at 1 2.
    by rewrite augment_spec, decide_False.
Qed.

(** X11: on the normal-equation path an error of [np.linalg.pinv] is the
    error of [fit]: nothing catches it. *)
Theorem fit_passes_on_pinv_error X yv n lam st G e :
  shape0 X = length yv ->
  length yv < 10 ->
  matmul (transpose (augmented X)) (augmented X) = Ok G ->
  pinv G = Raise e ->
  fit pinv X yv n lam st = Raise e.
Proof.
  intros Hshape Hm HG HP.
  rewrite fit_small_run, augment_spec, decide_True by done.
  unfold normal_weights. rewrite HG; simpl. by rewrite HP.
Qed.
(** X12: running longer only adds to the cost history: every entry of the
    history of [n] passes is an entry of the history of [n'] passes, for
    [n <= n'] on the same data. *)
Theorem longer_run_extends_history X yv n n' lam st cpi cpi' :
  10 <= length yv ->
  n <= n' ->
  history (fit pinv X yv n lam st) = Some cpi ->
  history (fit pinv X yv n' lam st) = Some cpi' ->
  cpi ⊆ cpi'.
Proof.
  intros Hm Hn Hcpi Hcpi'.
  destruct (decide (shape0 X = length yv)) as [Hshape|Hshape];
    [|by rewrite fit_rejects_row_mismatch_aux in Hcpi].
  destruct (fit_large_run pinv X yv n lam st Hshape Hm)
    as (st1 & l1 & Hrun & _).
  destruct (fit_large_run pinv X yv n' lam st Hshape Hm)
    as (st2 & l2 & Hrun' & _).
  rewrite Hrun in Hcpi. rewrite Hrun' in Hcpi'.
  injection Hcpi as <-. injection Hcpi' as <-.
  apply map_subseteq_spec. intros i C.
  rewrite !gd_history_lookup.
  destruct (decide (0 <= i < 0 + n /\ i mod 10 = 0)) as [Hi|Hi];
    [|by rewrite lookup_empty].
  by rewrite decide_True by lia.
Qed.
End Further.

(** ** Runs over the rationals *)

(** C1: two passes on ten examples with feature 0 and target 1, learning
    rate 1, no regularisation.  The update worded in the specification moves
    the bias to 1 in the first pass and leaves it there; the method returns
    the bias 0, because [w_ = self.w] names the array of [self.w] itself and
    [w_[0] = 0] clears the bias before the step is taken. *)
Theorem bias_weight_is_reset :
  learned (fit pinv_small X_flat y_flat 2 0%Q (fresh 1%Q)) = Some [0%Q; 0%Q] /\
  spec_gd_weights (augmented X_flat) y_flat 0%Q 1%Q 2 = [1%Q; 0%Q].
Proof. split; vm_compute; reflexivity. Qed.



(** *** The theorems at concrete inputs *)

(** C2 on ten examples and two passes. *)
Lemma fit_selects_algorithm_witness :
  shape0 X_flat = length y_flat /\
  exists st' l' cpi,
    fit pinv_small X_flat y_flat 2 0%Q (fresh 1%Q)
      = Ok (mkFit l' (Some cpi), st') /\
    heap st' !! l' = Some (gd_weights (augmented X_flat) y_flat 0%Q 1%Q 2) /\
    length (heap st') = 4.
Proof.
  split; [reflexivity|].
  apply (fit_selects_algorithm pinv_small X_flat y_flat 2 0%Q (fresh 1%Q)
           eq_refl).
  vm_compute. lia.
Defined.

(** C4 on the first nine examples of the scenario: the closed form gives
    exactly [[0, 2]]. *)
Lemma normal_equation_weights_witness :
  shape0 X_nine = length y_nine /\ length y_nine < 10 /\
  exists res st',
    fit pinv_small X_nine y_nine 100 0%Q (fresh default_alpha)
      = Ok (res, st') /\
    self_X (self st') = Some (augmented X_nine) /\
    self_w (self st') = Some (res_w res) /\
    heap st' !! res_w res = Some [0%Q; 2%Q] /\
    res_cpi res = None.
Proof.
  split; [reflexivity|]. split; [vm_compute; lia|].
  eapply (normal_equation_weights pinv_small X_nine y_nine 100 0%Q
            (fresh default_alpha)).
  - reflexivity.
  - vm_compute; lia.
  - vm_compute; reflexivity.
  - vm_compute; reflexivity.
  - vm_compute; reflexivity.
  - vm_compute; reflexivity.
Defined.

(** C5 on the state after that fit: the weights [[0, 2]] cost nothing. *)
Lemma cost_regularized_pure_witness :
  cost st_nine = Ok (0%Q, st_nine).
Proof.
  refine (proj1 (cost_regularized_pure st_nine (augmented X_nine) y_nine 0%Q 2
                   [0%Q; 2%Q] _ _ _ _ _ _ _ _)); try reflexivity.
  vm_compute. lia.
Defined.

(** C6 on the same state: the prediction for 11 is 22. *)
Lemma predict_is_dot_witness :
  predict X_eleven () "rmse" st_nine = Ok ([22%Q], st_nine).
Proof.
  destruct (predict_is_dot pinv_small X_eleven () "rmse" st_nine 2
              [0%Q; 2%Q]) as [E _]; [reflexivity..|].
  rewrite E. reflexivity.
Defined.

(** C8 on the vector [[1, 2]] and the array [[[1], [2]]]. *)
Lemma one_dimensional_as_column_witness :
  fit pinv_small (Arr1 [1%Q; 2%Q]) [3%Q; 5%Q] 100 0%Q st_nine =
  fit pinv_small (Arr2 (mk2 1 [[1%Q]; [2%Q]])) [3%Q; 5%Q] 100 0%Q st_nine /\
  predict (Arr1 [1%Q; 2%Q]) () "rmse" st_nine =
  predict (Arr2 (mk2 1 [[1%Q]; [2%Q]])) () "rmse" st_nine.
Proof.
  apply (one_dimensional_as_column pinv_small [1%Q; 2%Q]
           (mk2 1 [[1%Q]; [2%Q]])).
  - repeat constructor.
  - reflexivity.
  - reflexivity.
Defined.

(** C9 on ten examples and twenty-five passes: the keys are 0, 10 and 20. *)
Lemma cost_history_keys_witness :
  shape0 X_flat = length y_flat /\ 10 <= length y_flat /\
  exists res st' cpi,
    fit pinv_small X_flat y_flat 25 0%Q (fresh 1%Q) = Ok (res, st') /\
    res_cpi res = Some cpi /\
    forall i,
      (is_Some (cpi !! i) <-> i < 25 /\ i mod 10 = 0) /\
      (forall C, cpi !! i = Some C ->
                 C = cost_value (augmented X_flat) y_flat 0%Q
                       (gd_weights (augmented X_flat) y_flat 0%Q 1%Q (S i))).
Proof.
  split; [reflexivity|]. split; [vm_compute; lia|].
  apply (cost_history_keys pinv_small X_flat y_flat 25 0%Q (fresh 1%Q)).
  - reflexivity.
  - vm_compute; lia.
Defined.

(** C10 on two instances that hold the weights [[0, 2]]. *)
Lemma predict_ignores_y_and_score_witness :
  value (predict X_eleven y_nine "rmse" st_nine) =
  value (predict X_eleven () "mse" st_other) /\
  predict X_eleven y_nine "rmse" st_nine = predict X_eleven () "mse" st_nine.
Proof.
  apply (predict_ignores_y_and_score X_eleven y_nine () "rmse" "mse"
           st_nine st_other 2 0 [0%Q; 2%Q]); reflexivity.
Defined.

(** *** The cost in exact arithmetic *)

Lemma Q_sum_of_squares_nonneg (v : vec Q) : (0 <= vsum (square v))%Q.
Proof.
  induction v as [|x v IH]; simpl; [apply Qle_refl|].
  fold (square v). fold (vsum (square v)).
  rewrite !Qred_correct. nra.
Qed.

Lemma Q_ratio_nonneg (a : Q) (k : nat) :
  (0 <= a)%Q -> (0 <= a / inject_Z (Z.of_nat k))%Q.
Proof.
  intros Ha. apply Qmult_le_0_compat; [done|].
  apply Qinv_le_0_compat.
  change 0%Q with (inject_Z 0). rewrite <- Zle_Qle. lia.
Qed.

Lemma cost_value_nonneg (Xa : ndarray2 Q) (yv : vec Q) (lam : Q) (wv : vec Q) :
  (0 <= lam)%Q -> (0 <= cost_value Xa yv lam wv)%Q.
Proof.
  intros Hlam. unfold cost_value. simpl sadd. simpl smul. simpl sdiv.
  simpl sone. simpl of_int.
  rewrite !Qred_correct.
  pose proof (Q_sum_of_squares_nonneg (zip_with ssub (mv Xa wv) yv)) as H1.
  pose proof (Q_sum_of_squares_nonneg (drop 1 wv)) as H2.
  pose proof (Q_ratio_nonneg 1 (2 * length yv) ltac:(lra)) as H3.
  pose proof (Q_ratio_nonneg lam (2 * length yv) Hlam) as H4.
  apply (Qle_trans _ (0 + 0)); [lra|].
  apply Qplus_le_compat; by apply Qmult_le_0_compat.
Qed.

(** X13: in exact arithmetic and with [lambda_ >= 0], no cost in the
    history that [fit] returns is negative. *)
Theorem recorded_costs_nonneg (pinv : ndarray2 Q -> result (ndarray2 Q))
    (X : array_like Q) (yv : vec Q) (n : nat) (lam : Q) (st : state Q)
    (cpi : gmap nat Q) (i : nat) (C : Q) :
  (0 <= lam)%Q ->
  history (fit pinv X yv n lam st) = Some cpi ->
  cpi !! i = Some C ->
  (0 <= C)%Q.
Proof.
  intros Hlam Hcpi Hi.
  destruct (decide (shape0 X = length yv)) as [Hshape|Hshape];
    [|by rewrite fit_rejects_row_mismatch_aux in Hcpi].
  destruct (decide (length yv < 10)) as [Hm|Hm].
  - rewrite fit_small_run, augment_spec, decide_True in Hcpi by done.
    by destruct (normal_weights pinv (augmented X) yv).
  - destruct (fit_large_run pinv X yv n lam st Hshape)
      as (st1 & l1 & Hrun & _); [lia|].
    rewrite Hrun in Hcpi. injection Hcpi as <-.
    rewrite gd_history_lookup in Hi.
    destruct (decide (0 <= i < 0 + n /\ i mod 10 = 0)); [|done].
    injection Hi as <-. by apply cost_value_nonneg.
Qed.

(** *** The further theorems at concrete inputs *)

Lemma flat_fit_returns : flat_fit = Ok (res_flat, st_flat).
Proof. vm_compute. reflexivity. Qed.

(** X1 on ten rows of [X] against nine targets. *)
Lemma fit_rejects_row_mismatch_witness :
  shape0 X_flat <> length y_nine /\
  fit pinv_small X_flat y_nine 100 0%Q (fresh default_alpha) = Raise ValueError.
Proof.
  assert (shape0 X_flat <> length y_nine) as Hne by (vm_compute; lia).
  split; [exact Hne|].
  exact (fit_rejects_row_mismatch pinv_small X_flat y_nine 100 0%Q
           (fresh default_alpha) Hne).
Defined.

(** X3 on an instance whose data hold no example. *)
Lemma no_examples_divide_by_zero_witness :
  cost st_no_examples = Raise ZeroDivisionError /\
  gradient_descent st_no_examples = Raise ZeroDivisionError.
Proof.
  apply (no_examples_divide_by_zero st_no_examples (mk2 2 []) 0%Q 0
           [0%Q; 0%Q] 2); try reflexivity.
  simpl. lia.
Defined.

(** X4 on no examples with one feature: the weights are [[0, 0]]. *)
Lemma fit_without_examples_witness :
  exists res st',
    fit pinv_small X_empty [] 100 0%Q (fresh default_alpha) = Ok (res, st') /\
    heap st' !! res_w res = Some [0%Q; 0%Q] /\
    res_cpi res = None.
Proof.
  change [0%Q; 0%Q]
    with (zeros (nrows (mk2 2 [[0%Q; 0%Q]; [0%Q; 0%Q]])) : vec Q).
  apply (fit_without_examples pinv_small X_empty 100 0%Q
           (fresh default_alpha) (mk2 2 [[0%Q; 0%Q]; [0%Q; 0%Q]])
           (mk2 2 [[0%Q; 0%Q]; [0%Q; 0%Q]])).
  - reflexivity.
  - vm_compute; reflexivity.
  - vm_compute; reflexivity.
  - reflexivity.
Defined.

(** X5 on the flat data. *)
Lemma fit_without_iterations_witness :
  exists res st',
    fit pinv_small X_flat y_flat 0 0%Q (fresh 1%Q) = Ok (res, st') /\
    heap st' !! res_w res = Some [0%Q; 0%Q] /\
    res_cpi res = Some ∅.
Proof.
  change [0%Q; 0%Q] with (zeros (1 + n_features X_flat) : vec Q).
  apply (fit_without_iterations pinv_small X_flat y_flat 0%Q (fresh 1%Q)).
  - reflexivity.
  - vm_compute; lia.
Defined.

(** X6 on a new instance and on one that has been fitted before. *)
Lemma fit_forgets_earlier_calls_witness :
  learned (fit pinv_small X_nine y_nine 100 0%Q (fresh default_alpha)) =
  learned (fit pinv_small X_nine y_nine 100 0%Q st_nine) /\
  history (fit pinv_small X_nine y_nine 100 0%Q (fresh default_alpha)) =
  history (fit pinv_small X_nine y_nine 100 0%Q st_nine).
Proof.
  apply (fit_forgets_earlier_calls pinv_small X_nine y_nine 100 0%Q
           (fresh default_alpha) st_nine).
  reflexivity.
Defined.

(** X7 on a second call of [fit] on the instance fitted on nine examples:
    the three arrays of the first call are as they were. *)
Lemma fit_keeps_existing_arrays_witness :
  3 <= 5 /\
  forall j, j < 3 ->
    heap (after_normal st_nine (augmented X_nine) y_nine 7 0%Q [0%Q; 2%Q]) !! j
    = heap st_nine !! j.
Proof.
  apply (fit_keeps_existing_arrays pinv_small X_nine y_nine 7 0%Q st_nine
           (mkFit 5 None)
           (after_normal st_nine (augmented X_nine) y_nine 7 0%Q [0%Q; 2%Q])).
  vm_compute. reflexivity.
Defined.

(** X8 on the run on the flat data. *)
Lemma fit_stores_arguments_witness :
  self st_flat = mkLR 1%Q (Some (augmented X_flat)) (Some y_flat) (Some 2)
                      (Some 0%Q) (Some (res_w res_flat)) /\
  is_Some (heap st_flat !! res_w res_flat).
Proof.
  apply (fit_stores_arguments pinv_small X_flat y_flat 2 0%Q (fresh 1%Q)
           res_flat st_flat).
  vm_compute. reflexivity.
Defined.

(** X9 after the run on the flat data: a query with one feature column is
    answered, one with two is refused. *)
Lemma predict_after_fit_witness :
  (exists y_hat,
     predict X_eleven () "rmse" st_flat = Ok (y_hat, st_flat) /\
     length y_hat = 1) /\
  predict X_pair () "rmse" st_flat = Raise ValueError.
Proof.
  split.
  - apply (predict_after_fit pinv_small X_flat y_flat 2 0%Q (fresh 1%Q)
             res_flat st_flat X_eleven () "rmse");
      [vm_compute; reflexivity | vm_compute; lia | reflexivity].
  - apply (predict_after_fit pinv_small X_flat y_flat 2 0%Q (fresh 1%Q)
             res_flat st_flat X_pair () "rmse");
      [vm_compute; reflexivity | vm_compute; lia | vm_compute; lia].
Defined.

(** X10 on the flat data, against a [pinv] that always fails. *)
Lemma gradient_path_ignores_pinv_witness :
  fit pinv_small X_flat y_flat 2 0%Q (fresh 1%Q) =
  fit (fun _ => Raise LinAlgError) X_flat y_flat 2 0%Q (fresh 1%Q).
Proof.
  apply (gradient_path_ignores_pinv pinv_small (fun _ => Raise LinAlgError)
           X_flat y_flat 2 0%Q (fresh 1%Q)).
  vm_compute. lia.
Defined.

(** X11 on one example with two features: the normal equations are 3 x 3,
    beyond [pinv_small], and its error is the error of [fit]. *)
Lemma fit_passes_on_pinv_error_witness :
  fit pinv_small X_wide [1%Q] 100 0%Q (fresh default_alpha)
    = Raise LinAlgError.
Proof.
  eapply (fit_passes_on_pinv_error pinv_small X_wide [1%Q] 100 0%Q
            (fresh default_alpha)).
  - reflexivity.
  - vm_compute; lia.
  - vm_compute; reflexivity.
  - vm_compute; reflexivity.
Defined.

(** X12 on the flat data: five passes against twenty-five. *)
Lemma longer_run_extends_history_witness :
  match history (fit pinv_small X_flat y_flat 5 0%Q (fresh 1%Q)),
        history (fit pinv_small X_flat y_flat 25 0%Q (fresh 1%Q)) with
  | Some cpi, Some cpi' => cpi ⊆ cpi'
  | _, _ => False
  end.
Proof.
  destruct (history (fit pinv_small X_flat y_flat 5 0%Q (fresh 1%Q)))
    as [cpi|] eqn:H5; [|vm_compute in H5; discriminate].
  destruct (history (fit pinv_small X_flat y_flat 25 0%Q (fresh 1%Q)))
    as [cpi'|] eqn:H25; [|vm_compute in H25; discriminate].
  apply (longer_run_extends_history pinv_small X_flat y_flat 5 25 0%Q
           (fresh 1%Q) cpi cpi'); [vm_compute; lia | lia | done | done].
Defined.

(** X13 on the run on the flat data: the cost recorded at key 0. *)
Lemma recorded_costs_nonneg_witness :
  match res_cpi res_flat with
  | Some cpi =>
      match cpi !! 0 with
      | Some C => (0 <= C)%Q
      | None => False
      end
  | None => False
  end.
Proof.
  destruct (res_cpi res_flat) as [cpi|] eqn:Hcpi;
    [|vm_compute in Hcpi; discriminate].
  destruct (cpi !! 0) as [C|] eqn:HC.
  - apply (recorded_costs_nonneg pinv_small X_flat y_flat 2 0%Q (fresh 1%Q)
             cpi 0 C); [vm_compute; discriminate| |done].
    change (history flat_fit = Some cpi).
    rewrite flat_fit_returns. exact Hcpi.
  - assert (res_cpi res_flat = Some cpi -> cpi !! 0 <> None) as Hne.
    { vm_compute. intros [= <-]. discriminate. }
    by apply Hne in Hcpi.
Defined.
